(** * Design-token mixins of [src/styles/mixins] (loaded by vite.config.js)

    A shallow embedding of the Sass module that [vite.config.js] injects in
    front of every style sheet: the mixins [generate-palette],
    [generate-layouts-overlay], [font-sizes], [font-weights] and the
    function [scale].

    Modelling conventions.
    - A Sass number is a magnitude with numerator and denominator units.
      Sass computes on IEEE doubles; here magnitudes are exact rationals
      ([Q]), so every statement below is about the exact arithmetic the
      mixins describe, not about rounding in the last binary digit.
    - A colour is identified with its coordinates in the [rgb] space and its
      alpha, which is the space the module itself works in
      ([color.channel(..., $space: rgb)], [rgba], legacy [color.mix]).
    - A mixin writes declarations and style rules into the sheet that is
      being compiled; it is a function from the sheet so far to the sheet
      afterwards.
    - The functions of [sass:color] and the arithmetic of Sass numbers are
      not part of the repository; they are modelled after the Sass
      reference in the section "Sass library". *)

From Stdlib Require Import String Ascii List Sorted QArith Qround Qminmax Lqa Lia Bool.
Import ListNotations.

Open Scope string_scope.
Open Scope Q_scope.

(* ================================================================= *)
(** ** Sass library: numbers *)

Module Sass.

Record number : Type := mkNumber {
  magnitude : Q;
  numerators : list string;
  denominators : list string
}.

Definition unitless (q : Q) : number := mkNumber q [] [].
Definition px (q : Q) : number := mkNumber q ["px"] [].

(** Removes the first occurrence of [u] from [us], when there is one. *)
Fixpoint remove_first (u : string) (us : list string) : option (list string) :=
  match us with
  | [] => None
  | v :: vs =>
      if String.eqb u v then Some vs
      else option_map (cons v) (remove_first u vs)
  end.

(** One pass of unit cancellation: every unit of [nums] that also occurs in
    [dens] is struck out of both; the others are kept in order.  Units are
    cancelled by name (two different compatible units, such as [px] and [in],
    are not converted into one another here). *)
Fixpoint cancel (nums dens : list string) : list string * list string :=
  match nums with
  | [] => ([], dens)
  | u :: us =>
      match remove_first u dens with
      | Some dens' => cancel us dens'
      | None => let '(ns, ds) := cancel us dens in (u :: ns, ds)
      end
  end.

(** [a * b] on numbers: the magnitudes are multiplied, the numerator units of
    each side are cancelled against the denominator units of the other, and
    what is left is joined. *)
Definition times (a b : number) : number :=
  let '(n1, d2) := cancel (numerators a) (denominators b) in
  let '(n2, d1) := cancel (numerators b) (denominators a) in
  mkNumber (magnitude a * magnitude b) (n1 ++ n2)%list (d1 ++ d2)%list.

(** The result of calling a Sass function: it returns a value, or an
    [@error] stops the compilation with a message. *)
Inductive outcome (A : Type) : Type :=
| Return (a : A)
| Raise (message : string).
Arguments Return {A} a.
Arguments Raise {A} message.

(* ----------------------------------------------------------------- *)
(** *** Colours ([sass:color]) *)

Record color : Type := mkColor {
  red : Q;
  green : Q;
  blue : Q;
  alpha : Q
}.

Definition white : color := mkColor 255 255 255 1.
Definition black : color := mkColor 0 0 0 1.

Inductive channel_name : Type := Red | Green | Blue.

(** [color.channel($color, $channel, $space: rgb)] *)
Definition channel (c : color) (ch : channel_name) : Q :=
  match ch with
  | Red => red c
  | Green => green c
  | Blue => blue c
  end.

(** A number below [lo] becomes [lo], one above [hi] becomes [hi], any other
    is returned as it is. *)
Definition clamp (lo hi x : Q) : Q :=
  match x ?= lo with
  | Lt => lo
  | _ => match x ?= hi with
         | Gt => hi
         | _ => x
         end
  end.

(** [rgba($red, $green, $blue, $alpha)]: the channels are clamped to
    0..255 and the alpha to 0..1. *)
Definition rgba (r g b a : Q) : color :=
  mkColor (clamp 0 255 r) (clamp 0 255 g) (clamp 0 255 b) (clamp 0 1 a).

(** The share of [$color1] in a legacy [color.mix], from the weight [p]
    (a fraction of 1) and the difference [a] of the two alphas. *)
Definition weight1 (p a : Q) : Q :=
  let w := p * 2 - 1 in
  let combined :=
    if Qeq_bool (w * a) (-1) then w else (w + a) / (1 + w * a) in
  (combined + 1) / 2.

(** [color.mix($color1, $color2, $weight)] for legacy colours, [weight] in
    percent: each channel is the average of the two colours' channels
    weighted by [weight1], the alpha is averaged by the weight alone. *)
Definition mix (color1 color2 : color) (weight : Q) : color :=
  let p := weight / 100 in
  let w1 := weight1 p (alpha color1 - alpha color2) in
  let w2 := 1 - w1 in
  mkColor (red color1 * w1 + red color2 * w2)
          (green color1 * w1 + green color2 * w2)
          (blue color1 * w1 + blue color2 * w2)
          (alpha color1 * p + alpha color2 * (1 - p)).

(** HSL lightness in percent: the mean of the largest and the smallest
    channel, each taken as a fraction of 255. *)
Definition lightness (c : color) : Q :=
  let hi := Qmax (Qmax (red c) (green c)) (blue c) in
  let lo := Qmin (Qmin (red c) (green c)) (blue c) in
  (hi / 255 + lo / 255) / 2 * 100.

(* ----------------------------------------------------------------- *)
(** *** Style sheets and mixins *)

Inductive value : Type :=
| VColor (c : color)
| VNumber (n : number)
| VIdent (s : string).

Definition declaration : Type := (string * value)%type.

(** What a mixin can write: a declaration into the rule that includes it,
    or a nested style rule. *)
Inductive statement : Type :=
| Decl (property : string) (v : value)
| Rule (selector : string) (body : list declaration).

Definition sheet : Type := list statement.

(** A mixin extends the sheet compiled so far. *)
Definition mixin : Type := sheet -> sheet.

Definition emit (s : statement) : mixin := fun out => (out ++ [s])%list.
Definition and_then (m1 m2 : mixin) : mixin := fun out => m2 (m1 out).

(** [@include m] in an empty context. *)
Definition include (m : mixin) : sheet := m [].

(** What an invocation of [m] adds to the sheet [out] it runs in. *)
Definition added (m : mixin) (out : sheet) : sheet :=
  skipn (length out) (m out).

(** An argument with a default value. *)
Definition or_default (arg : option string) (default : string) : string :=
  match arg with
  | Some s => s
  | None => default
  end.

End Sass.
Import Sass.

Declare Scope mixin_scope.
Delimit Scope mixin_scope with mixin.
Bind Scope mixin_scope with mixin.
Notation "m1 ;; m2" := (and_then m1 m2)
  (at level 61, right associativity) : mixin_scope.

(* ================================================================= *)
(** ** [@mixin generate-palette($base-color, $name: 'primary')] *)

Definition generate_palette (base_color : color) (name : option string)
  : mixin :=
  let name := or_default name "primary" in
  let lightest := mix white base_color 95 in
  let lighter_4 := mix white base_color 85 in
  let lighter_3 := mix white base_color 80 in
  let lighter_2 := mix white base_color 70 in
  let lighter_1 := mix white base_color 50 in
  let base := base_color in
  let darker_1 := mix black base_color 30 in
  let darker_2 := mix black base_color 60 in
  (emit (Decl ("--" ++ name ++ "-1") (VColor lightest)) ;;
   emit (Decl ("--" ++ name ++ "-2") (VColor lighter_4)) ;;
   emit (Decl ("--" ++ name ++ "-3") (VColor lighter_3)) ;;
   emit (Decl ("--" ++ name ++ "-4") (VColor lighter_2)) ;;
   emit (Decl ("--" ++ name ++ "-5") (VColor lighter_1)) ;;
   emit (Decl ("--" ++ name ++ "-6") (VColor base)) ;;
   emit (Decl ("--" ++ name ++ "-7") (VColor (mix base darker_1 50))) ;;
   emit (Decl ("--" ++ name ++ "-8") (VColor darker_1)) ;;
   emit (Decl ("--" ++ name ++ "-9") (VColor darker_2)))%mixin.

(* ================================================================= *)
(** ** [@mixin generate-layouts-overlay($base-color, $color-name)] *)

Definition generate_layouts_overlay (base_color : color) (color_name : string)
  : mixin :=
  let base_r := channel base_color Red in
  let base_g := channel base_color Green in
  let base_b := channel base_color Blue in
  let overlay_1 := rgba base_r base_g base_b (1 # 10) in
  let overlay_2 := rgba base_r base_g base_b (2 # 10) in
  let overlay_4 := rgba base_r base_g base_b (4 # 10) in
  let overlay_7 := rgba base_r base_g base_b (7 # 10) in
  (emit (Decl ("--" ++ color_name ++ "-overlay-1") (VColor overlay_1)) ;;
   emit (Decl ("--" ++ color_name ++ "-overlay-2") (VColor overlay_2)) ;;
   emit (Decl ("--" ++ color_name ++ "-overlay-4") (VColor overlay_4)) ;;
   emit (Decl ("--" ++ color_name ++ "-overlay-7") (VColor overlay_7)))%mixin.

(* ================================================================= *)
(** ** [@mixin font-sizes($prefix: 'font')] *)

Definition font_sizes (prefix : option string) : mixin :=
  let prefix := or_default prefix "font" in
  (emit (Rule ("." ++ prefix ++ "-xl") [("font-size", VNumber (px 24))]) ;;
   emit (Rule ("." ++ prefix ++ "-l") [("font-size", VNumber (px 20))]) ;;
   emit (Rule ("." ++ prefix ++ "-m") [("font-size", VNumber (px 18))]) ;;
   emit (Rule ("." ++ prefix ++ "-default")
           [("font-size", VNumber (px 16))]) ;;
   emit (Rule ("." ++ prefix ++ "-sm") [("font-size", VNumber (px 14))]) ;;
   emit (Rule ("." ++ prefix ++ "-xs") [("font-size", VNumber (px 12))]) ;;
   emit (Rule ("." ++ prefix ++ "-tiny") [("font-size", VNumber (px 11))]) ;;
   emit (Rule ("." ++ prefix ++ "-tiny-caps")
           [("font-size", VNumber (px 10));
            ("text-transform", VIdent "uppercase")]) ;;
   emit (Decl ("--" ++ prefix ++ "-xl") (VNumber (px 24))) ;;
   emit (Decl ("--" ++ prefix ++ "-l") (VNumber (px 20))) ;;
   emit (Decl ("--" ++ prefix ++ "-m") (VNumber (px 18))) ;;
   emit (Decl ("--" ++ prefix ++ "-default") (VNumber (px 16))) ;;
   emit (Decl ("--" ++ prefix ++ "-sm") (VNumber (px 14))) ;;
   emit (Decl ("--" ++ prefix ++ "-xs") (VNumber (px 12))) ;;
   emit (Decl ("--" ++ prefix ++ "-tiny") (VNumber (px 11))) ;;
   emit (Decl ("--" ++ prefix ++ "-tiny-caps") (VNumber (px 10))))%mixin.

(* ================================================================= *)
(** ** [@mixin font-weights($prefix: 'font-weight')] *)

Definition font_weights (prefix : option string) : mixin :=
  let prefix := or_default prefix "font-weight" in
  (emit (Rule ("." ++ prefix ++ "-light")
           [("font-weight", VNumber (unitless 300))]) ;;
   emit (Rule ("." ++ prefix ++ "-regular")
           [("font-weight", VNumber (unitless 400))]) ;;
   emit (Rule ("." ++ prefix ++ "-semibold")
           [("font-weight", VNumber (unitless 600))]) ;;
   emit (Rule ("." ++ prefix ++ "-bold")
           [("font-weight", VNumber (unitless 700))]) ;;
   emit (Rule ("." ++ prefix ++ "-black")
           [("font-weight", VNumber (unitless 800))]) ;;
   emit (Decl ("--" ++ prefix ++ "-light") (VNumber (unitless 300))) ;;
   emit (Decl ("--" ++ prefix ++ "-regular") (VNumber (unitless 400))) ;;
   emit (Decl ("--" ++ prefix ++ "-semibold") (VNumber (unitless 600))) ;;
   emit (Decl ("--" ++ prefix ++ "-bold") (VNumber (unitless 700))) ;;
   emit (Decl ("--" ++ prefix ++ "-black") (VNumber (unitless 800))))%mixin.

(* ================================================================= *)
(** ** [@function scale($multiple)] *)

(** [$base: 8px; @return $base * $multiple;] *)
Definition scale (multiple : number) : outcome number :=
  let base := px 8 in
  Return (times base multiple).

(** [o] is a returned length of [q] pixels. *)
Definition returns_px (o : outcome number) (q : Q) : Prop :=
  match o with
  | Return r =>
      magnitude r == q /\ numerators r = ["px"] /\ denominators r = []
  | Raise _ => False
  end.

(** The documented domain of [scale]: "Only whole numbers or 0.5 are
    allowed". *)
Definition whole (q : Q) : Prop := inject_Z (Qfloor q) == q.
Definition allowed_multiple (q : Q) : Prop := whole q \/ q == 1 # 2.


(* ================================================================= *)
(** ** Reading a compiled sheet *)

(** A token is a custom property: a declaration whose property starts with
    two dashes.  Its name is what follows them. *)
Definition token_of (s : statement) : option (string * value) :=
  match s with
  | Decl (String "-" (String "-" name)) v => Some (name, v)
  | _ => None
  end.

Fixpoint tokens (out : sheet) : list (string * value) :=
  match out with
  | [] => []
  | s :: rest =>
      match token_of s with
      | Some t => t :: tokens rest
      | None => tokens rest
      end
  end.

Definition token_names (out : sheet) : list string := map fst (tokens out).

(** The suffixes each mixin puts after its prefix, in the order written. *)
Definition palette_suffixes : list string :=
  ["-1"; "-2"; "-3"; "-4"; "-5"; "-6"; "-7"; "-8"; "-9"].
Definition overlay_suffixes : list string :=
  ["-overlay-1"; "-overlay-2"; "-overlay-4"; "-overlay-7"].
Definition font_size_suffixes : list string :=
  ["-xl"; "-l"; "-m"; "-default"; "-sm"; "-xs"; "-tiny"; "-tiny-caps"].
Definition font_weight_suffixes : list string :=
  ["-light"; "-regular"; "-semibold"; "-bold"; "-black"].

(** A utility class is a style rule whose selector is a dot and a name. *)
Fixpoint classes (out : sheet) : list (string * list declaration) :=
  match out with
  | [] => []
  | Rule (String "." name) body :: rest => (name, body) :: classes rest
  | _ :: rest => classes rest
  end.

(** The magnitudes of the numeric values of a list of tokens, in order. *)
Fixpoint magnitudes (ts : list (string * value)) : list Q :=
  match ts with
  | [] => []
  | (_, VNumber n) :: rest => magnitude n :: magnitudes rest
  | _ :: rest => magnitudes rest
  end.

(** Each number of the list is strictly greater than all that follow. *)
Definition strictly_descending (l : list Q) : Prop :=
  StronglySorted (fun a b => b < a) l.

Definition strictly_ascending (l : list Q) : Prop :=
  StronglySorted Qlt l.

Definition is_uppercase (v : value) : bool :=
  match v with
  | VIdent s => String.eqb s "uppercase"
  | _ => false
  end.

(** The statement sets an uppercase text transform somewhere. *)
Definition forces_uppercase (s : statement) : bool :=
  match s with
  | Decl _ v => is_uppercase v
  | Rule _ body => existsb (fun d => is_uppercase (snd d)) body
  end.

(** The colours the data model speaks of: channels within 0..255, alpha
    within 0..1. *)
Definition in_gamut (c : color) : Prop :=
  (0 <= red c <= 255) /\ (0 <= green c <= 255) /\ (0 <= blue c <= 255).

Definition valid_color (c : color) : Prop :=
  in_gamut c /\ 0 <= alpha c <= 1.

(** Every channel of [c1] is at most the same channel of [c2]. *)
Definition channels_le (c1 c2 : color) : Prop :=
  red c1 <= red c2 /\ green c1 <= green c2 /\ blue c1 <= blue c2.

(** The lightness of the token [name] of a sheet, when it is a colour. *)
Definition token_lightness (out : sheet) (name : string) : option Q :=
  match find (fun t => String.eqb (fst t) name) (tokens out) with
  | Some (_, VColor c) => Some (lightness c)
  | _ => None
  end.

(* ================================================================= *)
(** ** [@mixin flex-centered($flex-direction: row, $gap: '8px')] *)

(** A quoted Sass string that is used as the value of a declaration is
    written with its quotes: as CSS text it is the string between two
    double quotes. *)
Definition quoted (s : string) : value :=
  VIdent (String "034"%char (s ++ String "034"%char "")).

(** What an argument of the mixin can hold: [null], or a value. *)
Inductive sass_value : Type :=
| SNull
| SValue (v : value).

(** [property: $v] in the body of a mixin.  A declaration whose value is
    [null] or an empty unquoted string is left out of the CSS; any other
    value is declared.  (A number with more than one unit, or with a
    denominator unit, is no CSS value: there Sass stops with an error, which
    is outside what a mixin of this model can do; see [css_writable].) *)
Definition declare (property : string) (v : sass_value) : mixin :=
  match v with
  | SNull => fun out => out
  | SValue (VIdent EmptyString) => fun out => out
  | SValue x => emit (Decl property x)
  end.

(** An argument that was passed is used as it is, [null] included; the
    default stands in only for an argument that was not passed. *)
Definition argument_or_default (arg : option sass_value)
  (default : sass_value) : sass_value :=
  match arg with
  | Some v => v
  | None => default
  end.

Definition flex_centered (flex_direction gap : option sass_value) : mixin :=
  let flex_direction :=
    argument_or_default flex_direction (SValue (VIdent "row")) in
  let gap := argument_or_default gap (SValue (quoted "8px")) in
  (declare "display" (SValue (VIdent "flex")) ;;
   declare "justify-content" (SValue (VIdent "center")) ;;
   declare "align-items" (SValue (VIdent "center")) ;;
   declare "flex-direction" flex_direction ;;
   declare "gap" gap)%mixin.

(** The values that can be written as CSS: of the numbers, those with at
    most one unit and no denominator unit. *)
Definition css_writable (v : sass_value) : Prop :=
  match v with
  | SValue (VNumber n) =>
      (length (numerators n) <= 1)%nat /\ denominators n = []
  | _ => True
  end.

Definition argument_writable (arg : option sass_value) : Prop :=
  match arg with
  | Some v => css_writable v
  | None => True
  end.

(** The argument was passed and is [null] or an empty unquoted string. *)
Definition argument_left_out (arg : option sass_value) : bool :=
  match arg with
  | Some SNull => true
  | Some (SValue (VIdent EmptyString)) => true
  | _ => false
  end.

(* ================================================================= *)
(** ** Further readings of a sheet *)

(** A mixin that leaves what the sheet holds in place and writes after
    it. *)
Definition appends (m : mixin) : Prop :=
  forall out, m out = (out ++ include m)%list.

(** The colours among the values of a list of tokens, in order. *)
Fixpoint token_colors (ts : list (string * value)) : list color :=
  match ts with
  | [] => []
  | (_, VColor c) :: rest => c :: token_colors rest
  | _ :: rest => token_colors rest
  end.

(** The value a rule body gives to [property], when it sets it. *)
Definition declared (property : string) (body : list declaration)
  : option value :=
  option_map snd (find (fun d => String.eqb (fst d) property) body).

(** The properties a sheet declares at its top level, in order. *)
Fixpoint declared_properties (out : sheet) : list string :=
  match out with
  | [] => []
  | Decl property _ :: rest => property :: declared_properties rest
  | Rule _ _ :: rest => declared_properties rest
  end.

(** Plain linear interpolation: [w] percent of [target], the rest of [x]. *)
Definition blend (target x w : Q) : Q :=
  target * (w / 100) + x * (1 - w / 100).

(** [t] is opaque and each of its channels is [w] percent of the channel of
    [target] and the rest of the channel of [base]. *)
Definition opaque_blend (target base : color) (w : Q) (t : color) : Prop :=
  red t == blend (red target) (red base) w /\
  green t == blend (green target) (green base) w /\
  blue t == blend (blue target) (blue base) w /\
  alpha t == 1.

(** The two lists of names have no name in common. *)
Definition disjoint_names (l1 l2 : list string) : Prop :=
  forall x, In x l1 -> ~ In x l2.

(* ================================================================= *)
(** * Properties *)

(** ** The scale function *)

Lemma scale_unitless (q : Q) :
  scale (unitless q) = Return (mkNumber (8 * q) ["px"] []).
Proof. reflexivity. Qed.

Lemma scale_never_raises (m : number) (message : string) :
  scale m <> Raise message.
Proof. unfold scale. discriminate. Qed.

Lemma whole_inject_Z (z : Z) : whole (inject_Z z).
Proof. unfold whole. now rewrite Qfloor_Z. Qed.

Lemma not_allowed_13_10 : ~ allowed_multiple (13 # 10).
Proof.
  intros [H | H].
  - unfold whole in H. vm_compute in H. discriminate.
  - vm_compute in H. discriminate.
Qed.

(** C1, evaluated on the code: [scale(1.3)] is outside the documented
    domain (neither whole nor 0.5), yet the function raises nothing and
    returns 10.4px. *)
Theorem scale_1_3_returns :
  ~ allowed_multiple (13 # 10) /\
  returns_px (scale (unitless (13 # 10))) (104 # 10) /\
  forall message, scale (unitless (13 # 10)) <> Raise message.
Proof.
  split; [exact not_allowed_13_10 | split].
  - rewrite scale_unitless. simpl. repeat split; reflexivity.
  - intro message. apply scale_never_raises.
Qed.

(** C4: for a unitless multiple that is whole or 0.5, [scale] returns
    8 pixels times the multiple; [scale(3)] is 24px, [scale(0.5)] is 4px and
    [scale(2)] is 16px. *)
Theorem scale_allowed_multiple :
  (forall q : Q, allowed_multiple q ->
     returns_px (scale (unitless q)) (8 * q)) /\
  returns_px (scale (unitless 3)) 24 /\
  returns_px (scale (unitless (1 # 2))) 4 /\
  returns_px (scale (unitless 2)) 16.
Proof.
  repeat split; try reflexivity.
Qed.

Lemma scale_allowed_multiple_witness :
  allowed_multiple (1 # 2) /\ returns_px (scale (unitless (1 # 2))) (8 * (1 # 2)).
Proof.
  split.
  - right. reflexivity.
  - apply (proj1 scale_allowed_multiple). right. reflexivity.
Defined.

(* ================================================================= *)
(** ** What each mixin writes *)

Lemma skipn_length_app {A : Type} (l chunk : list A) :
  skipn (length l) (l ++ chunk) = chunk.
Proof. induction l as [| x l IH]; simpl; auto. Qed.

(** A mixin that only appends [chunk] adds exactly [chunk], whatever the
    sheet it is included in. *)
Lemma added_appends (m : mixin) (chunk : sheet) :
  (forall out, m out = out ++ chunk)%list ->
  forall out, added m out = chunk.
Proof.
  intros Hm out. unfold added. rewrite Hm. apply skipn_length_app.
Qed.

Ltac unfold_emits :=
  unfold and_then, emit; rewrite <- ?app_assoc; simpl; reflexivity.

Lemma generate_palette_appends (c : color) (name : option string) (out : sheet) :
  generate_palette c name out = (out ++ include (generate_palette c name))%list.
Proof. unfold include, generate_palette. unfold_emits. Qed.

Lemma generate_layouts_overlay_appends (c : color) (n : string) (out : sheet) :
  generate_layouts_overlay c n out
  = (out ++ include (generate_layouts_overlay c n))%list.
Proof. unfold include, generate_layouts_overlay. unfold_emits. Qed.

Lemma font_sizes_appends (prefix : option string) (out : sheet) :
  font_sizes prefix out = (out ++ include (font_sizes prefix))%list.
Proof. unfold include, font_sizes. unfold_emits. Qed.

Lemma font_weights_appends (prefix : option string) (out : sheet) :
  font_weights prefix out = (out ++ include (font_weights prefix))%list.
Proof. unfold include, font_weights. unfold_emits. Qed.


Lemma clamp_within (lo hi x : Q) : lo <= x <= hi -> clamp lo hi x = x.
Proof.
  intros [Hlo Hhi]. unfold clamp.
  destruct (x ?= lo) eqn:E1.
  - destruct (x ?= hi) eqn:E2; try reflexivity.
    rewrite <- Qgt_alt in E2. lra.
  - rewrite <- Qlt_alt in E1. lra.
  - destruct (x ?= hi) eqn:E2; try reflexivity.
    rewrite <- Qgt_alt in E2. lra.
Qed.

Lemma rgba_in_gamut (c : color) (a : Q) :
  in_gamut c -> 0 <= a <= 1 ->
  rgba (channel c Red) (channel c Green) (channel c Blue) a
  = mkColor (red c) (green c) (blue c) a.
Proof.
  intros (Hr & Hg & Hb) Ha. unfold rgba, channel.
  now rewrite !clamp_within.
Qed.

(** C3: for a base colour [c] (channels within 0..255) and a name [n], the
    overlay mixin writes exactly the four tokens [n-overlay-1], [-2], [-4]
    and [-7]; each has the red, green and blue channels of [c] and the alpha
    0.1, 0.2, 0.4 and 0.7 in turn. *)
Theorem generate_layouts_overlay_tokens (c : color) (n : string) :
  in_gamut c ->
  tokens (include (generate_layouts_overlay c n)) =
    [ (n ++ "-overlay-1", VColor (mkColor (red c) (green c) (blue c) (1 # 10)));
      (n ++ "-overlay-2", VColor (mkColor (red c) (green c) (blue c) (2 # 10)));
      (n ++ "-overlay-4", VColor (mkColor (red c) (green c) (blue c) (4 # 10)));
      (n ++ "-overlay-7", VColor (mkColor (red c) (green c) (blue c) (7 # 10))) ]
  /\ length (tokens (include (generate_layouts_overlay c n))) = 4%nat.
Proof.
  intro Hc. split; [| reflexivity].
  unfold include, generate_layouts_overlay, and_then, emit. simpl.
  rewrite !(rgba_in_gamut c) by (auto; lra).
  reflexivity.
Qed.

Lemma generate_layouts_overlay_tokens_witness :
  in_gamut (mkColor 0 105 232 1) /\
  tokens (include (generate_layouts_overlay (mkColor 0 105 232 1) "primary")) =
    [ ("primary-overlay-1", VColor (mkColor 0 105 232 (1 # 10)));
      ("primary-overlay-2", VColor (mkColor 0 105 232 (2 # 10)));
      ("primary-overlay-4", VColor (mkColor 0 105 232 (4 # 10)));
      ("primary-overlay-7", VColor (mkColor 0 105 232 (7 # 10))) ].
Proof.
  assert (H : in_gamut (mkColor 0 105 232 1)).
  { unfold in_gamut, Qle. simpl. lia. }
  split; [exact H |].
  exact (proj1 (generate_layouts_overlay_tokens (mkColor 0 105 232 1) "primary" H)).
Defined.

(* ================================================================= *)
(** ** The typographic scales *)

Ltac sorted_by_computation :=
  repeat (first [ apply SSorted_nil
                | apply SSorted_cons
                | apply Forall_nil
                | apply Forall_cons; [reflexivity |] ]).

(** C6: with the default prefix, [font-sizes] writes exactly eight tokens,
    [font-xl] = 24px, [font-l] = 20px, [font-m] = 18px, [font-default] = 16px,
    [font-sm] = 14px, [font-xs] = 12px, [font-tiny] = 11px and
    [font-tiny-caps] = 10px, in strictly descending order; the uppercase
    text transform is set by the class [.font-tiny-caps] and by no other
    statement, so by no token. *)
Theorem font_sizes_default :
  let out := include (font_sizes None) in
  tokens out =
    [ ("font-xl", VNumber (px 24)); ("font-l", VNumber (px 20));
      ("font-m", VNumber (px 18)); ("font-default", VNumber (px 16));
      ("font-sm", VNumber (px 14)); ("font-xs", VNumber (px 12));
      ("font-tiny", VNumber (px 11)); ("font-tiny-caps", VNumber (px 10)) ]
  /\ length (tokens out) = 8%nat
  /\ strictly_descending (magnitudes (tokens out))
  /\ In ("font-tiny-caps",
         [("font-size", VNumber (px 10));
          ("text-transform", VIdent "uppercase")]) (classes out)
  /\ (forall s, In s out -> forces_uppercase s = true ->
        exists body, s = Rule ".font-tiny-caps" body)
  /\ (forall t, In t (tokens out) -> is_uppercase (snd t) = false).
Proof.
  cbv zeta. repeat split.
  - unfold strictly_descending. simpl. sorted_by_computation.
  - simpl. tauto.
  - intros s Hin Hup. simpl in Hin.
    repeat (destruct Hin as [<- | Hin]; [try discriminate Hup |]);
      try contradiction.
    eexists. reflexivity.
  - intros t Hin. simpl in Hin.
    repeat (destruct Hin as [<- | Hin]; [reflexivity |]). contradiction.
Qed.

(** C7: with the default prefix, [font-weights] writes exactly five utility
    classes and exactly five tokens, light = 300, regular = 400,
    semibold = 600, bold = 700 and black = 800, the token values in strictly
    ascending order. *)
Theorem font_weights_default :
  let out := include (font_weights None) in
  tokens out =
    [ ("font-weight-light", VNumber (unitless 300));
      ("font-weight-regular", VNumber (unitless 400));
      ("font-weight-semibold", VNumber (unitless 600));
      ("font-weight-bold", VNumber (unitless 700));
      ("font-weight-black", VNumber (unitless 800)) ]
  /\ classes out =
    [ ("font-weight-light", [("font-weight", VNumber (unitless 300))]);
      ("font-weight-regular", [("font-weight", VNumber (unitless 400))]);
      ("font-weight-semibold", [("font-weight", VNumber (unitless 600))]);
      ("font-weight-bold", [("font-weight", VNumber (unitless 700))]);
      ("font-weight-black", [("font-weight", VNumber (unitless 800))]) ]
  /\ length (tokens out) = 5%nat
  /\ length (classes out) = 5%nat
  /\ magnitudes (tokens out) = [300; 400; 600; 700; 800]
  /\ strictly_ascending (magnitudes (tokens out)).
Proof.
  cbv zeta. repeat split.
  unfold strictly_ascending. simpl. sorted_by_computation.
Qed.

(* ================================================================= *)
(** ** Token names *)

Lemma append_inj_r (p s1 s2 : string) : p ++ s1 = p ++ s2 -> s1 = s2.
Proof.
  induction p as [| a p IH]; simpl; intro H.
  - exact H.
  - injection H as H. auto.
Qed.

(** Names built from one prefix and distinct suffixes are distinct. *)
Lemma NoDup_prefixed (p : string) (suffixes : list string) :
  NoDup suffixes -> NoDup (map (fun s => p ++ s) suffixes).
Proof.
  induction 1 as [| s l Hnotin Hnodup IH]; simpl; constructor; auto.
  rewrite in_map_iff. intros (s' & Heq & Hin).
  apply append_inj_r in Heq. subst s'. contradiction.
Qed.

Ltac distinct_suffixes :=
  repeat (constructor; [simpl; intuition discriminate |]); constructor.

Lemma palette_token_names (c : color) (name : option string) :
  token_names (include (generate_palette c name))
  = map (fun s => or_default name "primary" ++ s) palette_suffixes.
Proof. reflexivity. Qed.

Lemma overlay_token_names (c : color) (n : string) :
  token_names (include (generate_layouts_overlay c n))
  = map (fun s => n ++ s) overlay_suffixes.
Proof. reflexivity. Qed.

Lemma font_sizes_token_names (prefix : option string) :
  token_names (include (font_sizes prefix))
  = map (fun s => or_default prefix "font" ++ s) font_size_suffixes.
Proof. reflexivity. Qed.

Lemma font_weights_token_names (prefix : option string) :
  token_names (include (font_weights prefix))
  = map (fun s => or_default prefix "font-weight" ++ s) font_weight_suffixes.
Proof. reflexivity. Qed.

(** C9: in one invocation of a generator no two tokens have the same name:
    the name is the prefix followed by the suffix of the token, and the
    suffixes of one generator are pairwise different. *)
Theorem token_names_unique :
  (forall c name, NoDup (token_names (include (generate_palette c name)))) /\
  (forall c n, NoDup (token_names (include (generate_layouts_overlay c n)))) /\
  (forall prefix, NoDup (token_names (include (font_sizes prefix)))) /\
  (forall prefix, NoDup (token_names (include (font_weights prefix)))).
Proof.
  repeat split; intros.
  - rewrite palette_token_names. apply NoDup_prefixed. distinct_suffixes.
  - rewrite overlay_token_names. apply NoDup_prefixed. distinct_suffixes.
  - rewrite font_sizes_token_names. apply NoDup_prefixed. distinct_suffixes.
  - rewrite font_weights_token_names. apply NoDup_prefixed. distinct_suffixes.
Qed.

(* ================================================================= *)
(** ** Mixing and lightness *)

Lemma weight1_eq (p a : Q) :
  0 < p <= 1 -> 0 <= a <= 1 ->
  weight1 p a == p * (1 + a) / (1 + (p * 2 - 1) * a).
Proof.
  intros Hp Ha. unfold weight1.
  assert (Hd : 0 < 1 + (p * 2 - 1) * a) by nra.
  destruct (Qeq_bool ((p * 2 - 1) * a) (-1)) eqn:E.
  - apply Qeq_bool_eq in E. lra.
  - field. lra.
Qed.

Lemma weight1_bounds (p a : Q) :
  0 < p <= 1 -> 0 <= a <= 1 -> 0 <= weight1 p a <= 1.
Proof.
  intros Hp Ha. rewrite weight1_eq by assumption.
  assert (Hd : 0 < 1 + (p * 2 - 1) * a) by nra.
  split.
  - apply Qle_shift_div_l; [assumption | nra].
  - apply Qle_shift_div_r; [assumption | nra].
Qed.

Lemma weight1_mono (p p' a : Q) :
  0 < p -> p <= p' -> p' <= 1 -> 0 <= a <= 1 ->
  weight1 p a <= weight1 p' a.
Proof.
  intros Hp Hpp' Hp' Ha. rewrite !weight1_eq by lra.
  assert (Hd : 0 < 1 + (p * 2 - 1) * a) by nra.
  assert (Hd' : 0 < 1 + (p' * 2 - 1) * a) by nra.
  apply Qle_shift_div_l; [assumption |].
  setoid_replace (p * (1 + a) / (1 + (p * 2 - 1) * a) * (1 + (p' * 2 - 1) * a))
    with (p * (1 + a) * (1 + (p' * 2 - 1) * a) / (1 + (p * 2 - 1) * a))
    by (field; lra).
  apply Qle_shift_div_r; [assumption |].
  assert (H : 0 <= (p' - p) * ((1 - a) * (1 + a)))
    by (repeat apply Qmult_le_0_compat; lra).
  lra.
Qed.


Ltac constant_divisions :=
  unfold Qdiv;
  change (/ 255) with (1 # 255); change (/ 2) with (1 # 2);
  change (/ 100) with (1 # 100).

Lemma lightness_mono (c1 c2 : color) :
  red c1 <= red c2 -> green c1 <= green c2 -> blue c1 <= blue c2 ->
  lightness c1 <= lightness c2.
Proof.
  intros Hr Hg Hb. unfold lightness. cbv zeta.
  assert (Hmax : Qmax (Qmax (red c1) (green c1)) (blue c1)
                 <= Qmax (Qmax (red c2) (green c2)) (blue c2))
    by (repeat apply Q.max_le_compat; assumption).
  assert (Hmin : Qmin (Qmin (red c1) (green c1)) (blue c1)
                 <= Qmin (Qmin (red c2) (green c2)) (blue c2))
    by (repeat apply Q.min_le_compat; assumption).
  constant_divisions. lra.
Qed.

Lemma lightness_channels_le (c1 c2 : color) :
  channels_le c1 c2 -> lightness c1 <= lightness c2.
Proof. intros (Hr & Hg & Hb). now apply lightness_mono. Qed.

Lemma percent_fraction (w : Q) : 0 < w <= 100 -> 0 < w / 100 <= 1.
Proof. intro H. constant_divisions. lra. Qed.

Lemma opaque_alpha_distance (c : color) :
  0 <= alpha c <= 1 -> 0 <= 1 - alpha c <= 1.
Proof. intro H. lra. Qed.

(** An average that gives more weight to the larger of two numbers is
    larger. *)
Lemma average_mono (hi x w w' : Q) :
  x <= hi -> w' <= w -> hi * w' + x * (1 - w') <= hi * w + x * (1 - w).
Proof.
  intros Hx Hw.
  assert (H : 0 <= (hi - x) * (w - w')) by (apply Qmult_le_0_compat; lra).
  lra.
Qed.

Lemma average_above (hi x w : Q) :
  x <= hi -> 0 <= w -> x <= hi * w + x * (1 - w).
Proof.
  intros Hx Hw.
  assert (H : 0 <= (hi - x) * w) by (apply Qmult_le_0_compat; lra).
  lra.
Qed.

Lemma average_below (lo x w : Q) :
  lo <= x -> 0 <= w -> lo * w + x * (1 - w) <= x.
Proof.
  intros Hx Hw.
  assert (H : 0 <= (x - lo) * w) by (apply Qmult_le_0_compat; lra).
  lra.
Qed.

Lemma average_anti (lo x w w' : Q) :
  lo <= x -> w' <= w -> lo * w + x * (1 - w) <= lo * w' + x * (1 - w').
Proof.
  intros Hx Hw.
  assert (H : 0 <= (x - lo) * (w - w')) by (apply Qmult_le_0_compat; lra).
  lra.
Qed.

Section Mixing.
Variable c : color.
Hypothesis Hc : valid_color c.

(** More white gives a colour that is at least as light, channel by
    channel. *)
Lemma mix_white_mono (w w' : Q) :
  0 < w' -> w' <= w -> w <= 100 ->
  channels_le (mix white c w') (mix white c w).
Proof.
  intros H0 Hle H100. pose proof Hc as [(Hr & Hg & Hb) Ha].
  pose proof (opaque_alpha_distance c Ha) as alpha_ok.
  assert (Hw : weight1 (w' / 100) (1 - alpha c)
               <= weight1 (w / 100) (1 - alpha c)).
  { apply weight1_mono; try exact alpha_ok; constant_divisions; lra. }
  unfold channels_le, mix; simpl.
  repeat split; apply average_mono; solve [lra | exact Hw].
Qed.

Lemma mix_white_above (w : Q) :
  0 < w <= 100 -> channels_le c (mix white c w).
Proof.
  intros Hw. pose proof Hc as [(Hr & Hg & Hb) Ha].
  pose proof (opaque_alpha_distance c Ha) as alpha_ok.
  destruct (weight1_bounds (w / 100) (1 - alpha c)
              (percent_fraction w Hw) alpha_ok) as [H0 _].
  unfold channels_le, mix; simpl.
  repeat split; apply average_above; solve [lra | exact H0].
Qed.

Lemma mix_black_below (w : Q) :
  0 < w <= 100 -> channels_le (mix black c w) c.
Proof.
  intros Hw. pose proof Hc as [(Hr & Hg & Hb) Ha].
  pose proof (opaque_alpha_distance c Ha) as alpha_ok.
  destruct (weight1_bounds (w / 100) (1 - alpha c)
              (percent_fraction w Hw) alpha_ok) as [H0 _].
  unfold channels_le, mix; simpl.
  repeat split; apply average_below; solve [lra | exact H0].
Qed.

Lemma mix_black_anti (w w' : Q) :
  0 < w' -> w' <= w -> w <= 100 ->
  channels_le (mix black c w) (mix black c w').
Proof.
  intros H0 Hle H100. pose proof Hc as [(Hr & Hg & Hb) Ha].
  pose proof (opaque_alpha_distance c Ha) as alpha_ok.
  assert (Hw : weight1 (w' / 100) (1 - alpha c)
               <= weight1 (w / 100) (1 - alpha c)).
  { apply weight1_mono; try exact alpha_ok; constant_divisions; lra. }
  unfold channels_le, mix; simpl.
  repeat split; apply average_anti; solve [lra | exact Hw].
Qed.
End Mixing.

Lemma eqb_prefixed (p s1 s2 : string) :
  String.eqb (p ++ s1) (p ++ s2) = String.eqb s1 s2.
Proof.
  induction p as [| a p IH]; simpl; [reflexivity |].
  now rewrite Ascii.eqb_refl.
Qed.

Lemma palette_token_lightness (c : color) (name : option string) :
  let p := or_default name "primary" in
  let t := token_lightness (include (generate_palette c name)) in
  t (p ++ "-1") = Some (lightness (mix white c 95)) /\
  t (p ++ "-2") = Some (lightness (mix white c 85)) /\
  t (p ++ "-3") = Some (lightness (mix white c 80)) /\
  t (p ++ "-4") = Some (lightness (mix white c 70)) /\
  t (p ++ "-5") = Some (lightness (mix white c 50)) /\
  t (p ++ "-6") = Some (lightness c) /\
  t (p ++ "-8") = Some (lightness (mix black c 30)) /\
  t (p ++ "-9") = Some (lightness (mix black c 60)).
Proof.
  cbv zeta. unfold token_lightness, include, generate_palette, and_then, emit.
  cbn [app tokens token_of find fst String.append].
  rewrite !eqb_prefixed.
  repeat split; reflexivity.
Qed.

(** C5: for a base colour [c] (channels within 0..255, alpha within 0..1)
    the lightness of the palette tokens never increases along [p-1], [p-2],
    [p-3], [p-4], [p-5], [p-6], [p-8], [p-9]. *)
Theorem palette_lightness_monotone (c : color) (name : option string) :
  valid_color c ->
  let p := or_default name "primary" in
  let t := token_lightness (include (generate_palette c name)) in
  exists l1 l2 l3 l4 l5 l6 l8 l9 : Q,
    (t (p ++ "-1") = Some l1 /\ t (p ++ "-2") = Some l2 /\
     t (p ++ "-3") = Some l3 /\ t (p ++ "-4") = Some l4 /\
     t (p ++ "-5") = Some l5 /\ t (p ++ "-6") = Some l6 /\
     t (p ++ "-8") = Some l8 /\ t (p ++ "-9") = Some l9) /\
    l1 >= l2 /\ l2 >= l3 /\ l3 >= l4 /\ l4 >= l5 /\ l5 >= l6 /\
    l6 >= l8 /\ l8 >= l9.
Proof.
  intros Hc p t.
  destruct (palette_token_lightness c name)
    as (H1 & H2 & H3 & H4 & H5 & H6 & H8 & H9).
  do 8 eexists. split.
  - repeat split; eassumption.
  - repeat split; apply lightness_channels_le.
    + apply mix_white_mono; [exact Hc | lra ..].
    + apply mix_white_mono; [exact Hc | lra ..].
    + apply mix_white_mono; [exact Hc | lra ..].
    + apply mix_white_mono; [exact Hc | lra ..].
    + apply mix_white_above; [exact Hc | lra].
    + apply mix_black_below; [exact Hc | lra].
    + apply mix_black_anti; [exact Hc | lra ..].
Qed.

Lemma palette_lightness_monotone_witness :
  valid_color (mkColor 0 123 255 (1 # 2)) /\
  exists l1 l2 l3 l4 l5 l6 l8 l9 : Q,
    (let t := token_lightness
                (include (generate_palette (mkColor 0 123 255 (1 # 2))
                            (Some "blue"))) in
     t "blue-1" = Some l1 /\ t "blue-2" = Some l2 /\
     t "blue-3" = Some l3 /\ t "blue-4" = Some l4 /\
     t "blue-5" = Some l5 /\ t "blue-6" = Some l6 /\
     t "blue-8" = Some l8 /\ t "blue-9" = Some l9) /\
    l1 >= l2 /\ l2 >= l3 /\ l3 >= l4 /\ l4 >= l5 /\ l5 >= l6 /\
    l6 >= l8 /\ l8 >= l9.
Proof.
  assert (H : valid_color (mkColor 0 123 255 (1 # 2))).
  { unfold valid_color, in_gamut, Qle. simpl. lia. }
  split; [exact H |].
  exact (palette_lightness_monotone (mkColor 0 123 255 (1 # 2)) (Some "blue") H).
Defined.

(** The palette of [#007bff], as a check of the model against the colours
    Sass prints: token 1 is [rgb(242.25, 248.4, 255)], and the lightness runs
    97.5, 92.5, 90, 85, 75, 50, 42.5, 35, 20 from token 1 to token 9. *)
Example palette_007bff :
  let out := include (generate_palette (mkColor 0 123 255 1) None) in
  option_map Qred (token_lightness out "primary-1") = Some (195 # 2) /\
  option_map Qred (token_lightness out "primary-5") = Some 75 /\
  option_map Qred (token_lightness out "primary-6") = Some 50 /\
  option_map Qred (token_lightness out "primary-7") = Some (85 # 2) /\
  option_map Qred (token_lightness out "primary-9") = Some 20 /\
  match tokens out with
  | (_, VColor t1) :: _ =>
      red t1 == 969 # 4 /\ green t1 == 1242 # 5 /\ blue t1 == 255
  | _ => False
  end.
Proof.
  cbv zeta. repeat split; vm_compute; reflexivity.
Qed.

(* ================================================================= *)
(** * Further properties of the mixins *)

(** ** Sheets put together *)

Lemma tokens_app (out1 out2 : sheet) :
  tokens (out1 ++ out2)%list = (tokens out1 ++ tokens out2)%list.
Proof.
  induction out1 as [| s out1 IH]; simpl; [reflexivity |].
  destruct (token_of s); simpl; now rewrite IH.
Qed.

Lemma classes_app (out1 out2 : sheet) :
  classes (out1 ++ out2)%list = (classes out1 ++ classes out2)%list.
Proof.
  induction out1 as [| s out1 IH]; simpl; [reflexivity |].
  destruct s as [property v | [| a selector] body]; simpl; auto.
  destruct a as [[] [] [] [] [] [] [] []]; simpl; rewrite ?IH; reflexivity.
Qed.

Lemma emit_appends (s : statement) : appends (emit s).
Proof. intro out. reflexivity. Qed.

Lemma declare_appends (property : string) (v : sass_value) :
  appends (declare property v).
Proof.
  intro out. destruct v as [| [c | n | [| a s]]]; unfold declare, include;
    simpl; now rewrite ?app_nil_r.
Qed.

Lemma and_then_appends (m1 m2 : mixin) :
  appends m1 -> appends m2 -> appends (m1 ;; m2)%mixin.
Proof.
  intros H1 H2 out. unfold include, and_then.
  rewrite (H2 (m1 out)), (H2 (m1 [])), (H1 out). unfold include.
  now rewrite app_assoc.
Qed.

Lemma flex_centered_appends (d g : option sass_value) :
  appends (flex_centered d g).
Proof.
  unfold flex_centered.
  repeat (apply and_then_appends; [apply declare_appends |]).
  apply declare_appends.
Qed.

Ltac each_argument a :=
  destruct a as [[| [? | ? | [| ? ?]]] |].

(** For arguments that are not passed, [null], or values that can be
    written as CSS, [flex-centered] declares [display], [justify-content]
    and [align-items], then [flex-direction] and [gap], after what the sheet
    already holds; [flex-direction] or [gap] is left out exactly when its
    argument was passed as [null] or as an empty unquoted string.  The mixin
    defines no custom property and no utility class, so the tokens and
    classes of a sheet are the same before and after it. *)
Theorem flex_centered_keeps_tokens (d g : option sass_value) (out : sheet) :
  argument_writable d -> argument_writable g ->
  declared_properties (added (flex_centered d g) out)
    = (["display"; "justify-content"; "align-items"]
       ++ (if argument_left_out d then [] else ["flex-direction"])
       ++ (if argument_left_out g then [] else ["gap"]))%list
  /\ tokens (flex_centered d g out) = tokens out
  /\ classes (flex_centered d g out) = classes out.
Proof.
  intros _ _.
  rewrite (added_appends _ _ (flex_centered_appends d g)).
  rewrite flex_centered_appends, tokens_app, classes_app.
  each_argument d; each_argument g;
    (repeat split; simpl; now rewrite ?app_nil_r).
Qed.

Lemma flex_centered_keeps_tokens_witness :
  argument_writable (Some (SValue (VIdent "column"))) /\
  argument_writable (Some (SValue (VNumber (px 16)))) /\
  declared_properties
    (added (flex_centered (Some (SValue (VIdent "column")))
              (Some (SValue (VNumber (px 16)))))
       (include (font_sizes None)))
  = ["display"; "justify-content"; "align-items"; "flex-direction"; "gap"].
Proof.
  assert (Hd : argument_writable (Some (SValue (VIdent "column"))))
    by exact I.
  assert (Hg : argument_writable (Some (SValue (VNumber (px 16)))))
    by (split; [apply le_n | reflexivity]).
  split; [exact Hd | split; [exact Hg |]].
  exact (proj1 (flex_centered_keeps_tokens _ _ (include (font_sizes None))
                  Hd Hg)).
Defined.

(** ** Utility classes and tokens agree *)

(** For every prefix, [font-sizes] writes one utility class per token, under
    the same name and in the same order, and the [font-size] of the class is
    the value of the token. *)
Theorem font_sizes_classes_match_tokens (prefix : option string) :
  let out := include (font_sizes prefix) in
  map (fun cl => (fst cl, declared "font-size" (snd cl))) (classes out)
  = map (fun t => (fst t, Some (snd t))) (tokens out).
Proof. reflexivity. Qed.

(** For every prefix, [font-weights] writes one utility class per token,
    under the same name and in the same order, and the [font-weight] of the
    class is the value of the token. *)
Theorem font_weights_classes_match_tokens (prefix : option string) :
  let out := include (font_weights prefix) in
  map (fun cl => (fst cl, declared "font-weight" (snd cl))) (classes out)
  = map (fun t => (fst t, Some (snd t))) (tokens out).
Proof. reflexivity. Qed.

(** ** Token names across invocations *)

Lemma append_assoc (a b c : string) : (a ++ b) ++ c = a ++ (b ++ c).
Proof. induction a as [| x a IH]; simpl; [reflexivity | now rewrite IH]. Qed.

Lemma length_append (a b : string) :
  String.length (a ++ b) = (String.length a + String.length b)%nat.
Proof. induction a as [| x a IH]; simpl; [reflexivity | now rewrite IH]. Qed.

(** Two names with suffixes of one length are equal only when their
    prefixes are. *)
Lemma append_same_length (p1 p2 s1 s2 : string) :
  String.length s1 = String.length s2 -> p1 ++ s1 = p2 ++ s2 -> p1 = p2.
Proof.
  revert p2. induction p1 as [| a p1 IH]; intros [| b p2] Hlen Heq;
    simpl in Heq.
  - reflexivity.
  - apply (f_equal String.length) in Heq. simpl in Heq.
    rewrite length_append in Heq. lia.
  - apply (f_equal String.length) in Heq. simpl in Heq.
    rewrite length_append in Heq. lia.
  - injection Heq as -> Heq. f_equal. eauto.
Qed.

Lemma disjoint_prefixed (p1 p2 : string) (suffixes : list string) (n : nat) :
  Forall (fun s => String.length s = n) suffixes ->
  p1 <> p2 ->
  disjoint_names (map (fun s => p1 ++ s) suffixes)
                 (map (fun s => p2 ++ s) suffixes).
Proof.
  intros Hlen Hne x H1 H2.
  apply in_map_iff in H1 as (s1 & <- & Hs1).
  apply in_map_iff in H2 as (s2 & Heq & Hs2).
  rewrite Forall_forall in Hlen.
  apply Hne. symmetry. apply (append_same_length p2 p1 s2 s1); auto.
  now rewrite (Hlen s1 Hs1), (Hlen s2 Hs2).
Qed.

(** Two palettes under different prefixes share no token name, whatever
    their colours, and neither do two sets of overlays under different
    names: no prefix can run into the tokens of another. *)
Theorem distinct_prefixes_disjoint_tokens (p1 p2 : string) :
  p1 <> p2 ->
  (forall c1 c2,
     disjoint_names (token_names (include (generate_palette c1 (Some p1))))
                    (token_names (include (generate_palette c2 (Some p2)))))
  /\
  (forall c1 c2,
     disjoint_names (token_names (include (generate_layouts_overlay c1 p1)))
                    (token_names (include (generate_layouts_overlay c2 p2)))).
Proof.
  intro Hne. split; intros c1 c2.
  - rewrite !palette_token_names. simpl or_default.
    apply (disjoint_prefixed p1 p2 palette_suffixes 2); [| exact Hne].
    repeat constructor.
  - rewrite !overlay_token_names.
    apply (disjoint_prefixed p1 p2 overlay_suffixes 10); [| exact Hne].
    repeat constructor.
Qed.

Lemma distinct_prefixes_disjoint_tokens_witness :
  "primary" <> "primary-1" /\
  disjoint_names
    (token_names (include (generate_palette white (Some "primary"))))
    (token_names (include (generate_palette black (Some "primary-1")))).
Proof.
  assert (H : "primary" <> "primary-1") by discriminate.
  split; [exact H |].
  exact (proj1 (distinct_prefixes_disjoint_tokens "primary" "primary-1" H)
           white black).
Defined.

(** The four token generators included under one common prefix write 26
    tokens with 26 different names: the palette, the overlays, the font sizes
    and the font weights of one prefix never overwrite one another. *)
Theorem common_prefix_tokens_unique (c : color) (p : string) :
  let out := include (generate_palette c (Some p) ;;
                      generate_layouts_overlay c p ;;
                      font_sizes (Some p) ;;
                      font_weights (Some p))%mixin in
  length (tokens out) = 26%nat /\ NoDup (token_names out).
Proof.
  cbv zeta. split; [reflexivity |].
  change (token_names
            (include (generate_palette c (Some p) ;;
                      generate_layouts_overlay c p ;;
                      font_sizes (Some p) ;;
                      font_weights (Some p))%mixin))
    with (map (fun s => p ++ s)
            (palette_suffixes ++ overlay_suffixes
             ++ font_size_suffixes ++ font_weight_suffixes)%list).
  apply NoDup_prefixed. distinct_suffixes.
Qed.

(** A palette whose prefix is [n-overlay] defines, among its nine tokens,
    every token of the overlays of [n]: uniqueness of names holds within one
    invocation, not between a palette and overlays whose names are chosen
    this way. *)
Theorem palette_can_shadow_overlay (c c' : color) (n : string) :
  incl (token_names (include (generate_layouts_overlay c n)))
       (token_names (include (generate_palette c' (Some (n ++ "-overlay"))))).
Proof.
  rewrite overlay_token_names, palette_token_names. simpl or_default.
  intros x Hx. simpl in Hx. simpl. rewrite !append_assoc. simpl.
  intuition.
Qed.

(** ** More on [scale] *)

Lemma cancel_nil_r (us : list string) : cancel us [] = (us, []).
Proof.
  induction us as [| u us IH]; simpl; [reflexivity | now rewrite IH].
Qed.

(** When the multiple itself carries units (and divides by none), [scale]
    multiplies the units as well: the result has the unit [px] and every
    unit of the multiple, so it is a length in pixels only for a unitless
    multiple. *)
Theorem scale_multiplies_units (q : Q) (us : list string) :
  scale (mkNumber q us []) = Return (mkNumber (8 * q) ("px" :: us) [])
  /\ (us <> [] -> forall r, ~ returns_px (scale (mkNumber q us [])) r).
Proof.
  assert (H : scale (mkNumber q us []) = Return (mkNumber (8 * q) ("px" :: us) [])).
  { unfold scale, times. simpl. now rewrite cancel_nil_r. }
  split; [exact H |].
  intros Hus r. rewrite H. simpl. intros (_ & Hn & _).
  injection Hn as ->. contradiction.
Qed.

Lemma scale_multiplies_units_witness :
  ["px"] <> [] /\ ~ returns_px (scale (px 2)) 16.
Proof.
  assert (H : ["px"] <> []) by discriminate.
  split; [exact H |].
  exact (proj2 (scale_multiplies_units 2 ["px"]) H 16).
Defined.

(** For every multiple of the documented domain (whole, or 0.5) the length
    returned is a whole number of pixels, and a multiple of 4. *)
Theorem scale_allowed_whole_pixels (q : Q) :
  allowed_multiple q ->
  exists z : Z, returns_px (scale (unitless q)) (inject_Z (4 * z)).
Proof.
  intros [Hq | Hq]; rewrite scale_unitless; unfold returns_px, magnitude,
    numerators, denominators.
  - exists (2 * Qfloor q)%Z. repeat split.
    unfold whole in Hq. rewrite <- Hq at 1.
    rewrite !inject_Z_mult.
    change (inject_Z 4) with 4. change (inject_Z 2) with 2. ring.
  - exists 1%Z. repeat split. rewrite Hq. reflexivity.
Qed.

Lemma scale_allowed_whole_pixels_witness :
  allowed_multiple 3 /\
  exists z : Z, returns_px (scale (unitless 3)) (inject_Z (4 * z)).
Proof.
  assert (H : allowed_multiple 3) by (left; reflexivity).
  split; [exact H |].
  exact (scale_allowed_whole_pixels 3 H).
Defined.

(** ** Colours of the palette *)

(** The share of the first colour in a mix is a share: it lies between 0
    and 1 for every weight between 0 and 100 percent and any two alphas. *)
Lemma weight1_unit_interval (p a : Q) :
  0 <= p <= 1 -> -1 <= a <= 1 -> 0 <= weight1 p a <= 1.
Proof.
  intros Hp Ha. unfold weight1. cbv zeta.
  destruct (Qeq_bool ((p * 2 - 1) * a) (-1)) eqn:E.
  - constant_divisions. lra.
  - apply Qeq_bool_neq in E.
    assert (H1 : 0 <= (1 + (p * 2 - 1)) * (1 + a))
      by (apply Qmult_le_0_compat; lra).
    assert (H2 : 0 <= (1 - (p * 2 - 1)) * (1 - a))
      by (apply Qmult_le_0_compat; lra).
    assert (Hd : 0 < 1 + (p * 2 - 1) * a).
    { apply Qle_lteq in H1. destruct (Qlt_le_dec 0 (1 + (p * 2 - 1) * a))
        as [Hpos | Hneg]; [exact Hpos |].
      exfalso. apply E. lra. }
    assert (Hlo : -1 <= ((p * 2 - 1) + a) / (1 + (p * 2 - 1) * a))
      by (apply Qle_shift_div_l; [exact Hd | lra]).
    assert (Hhi : ((p * 2 - 1) + a) / (1 + (p * 2 - 1) * a) <= 1)
      by (apply Qle_shift_div_r; [exact Hd | lra]).
    revert Hlo Hhi.
    generalize (((p * 2 - 1) + a) / (1 + (p * 2 - 1) * a)). intros x Hlo Hhi.
    constant_divisions. lra.
Qed.

Lemma weight1_at_least (p a : Q) :
  0 < p <= 1 -> 0 <= a <= 1 -> p <= weight1 p a.
Proof.
  intros Hp Ha. rewrite weight1_eq by assumption.
  assert (Hd : 0 < 1 + (p * 2 - 1) * a) by nra.
  apply Qle_shift_div_l; [exact Hd |].
  assert (H : 0 <= (p * a) * (1 - p))
    by (repeat apply Qmult_le_0_compat; lra).
  lra.
Qed.

Lemma weight1_opaque (p a : Q) : a == 0 -> weight1 p a == p.
Proof.
  intro Ha. unfold weight1. cbv zeta.
  destruct (Qeq_bool ((p * 2 - 1) * a) (-1)) eqn:E.
  - apply Qeq_bool_eq in E. rewrite Ha in E. lra.
  - rewrite Ha. field.
Qed.

(** A weighted average of two numbers of an interval stays in it. *)
Lemma average_within (lo hi x y w : Q) :
  lo <= x <= hi -> lo <= y <= hi -> 0 <= w <= 1 ->
  lo <= x * w + y * (1 - w) <= hi.
Proof.
  intros Hx Hy Hw.
  assert (H1 : 0 <= (x - lo) * w) by (apply Qmult_le_0_compat; lra).
  assert (H2 : 0 <= (y - lo) * (1 - w)) by (apply Qmult_le_0_compat; lra).
  assert (H3 : 0 <= (hi - x) * w) by (apply Qmult_le_0_compat; lra).
  assert (H4 : 0 <= (hi - y) * (1 - w)) by (apply Qmult_le_0_compat; lra).
  lra.
Qed.

(** Mixing two colours of the data model gives a colour of the data
    model. *)
Lemma mix_valid (c1 c2 : color) (w : Q) :
  valid_color c1 -> valid_color c2 -> 0 <= w <= 100 ->
  valid_color (mix c1 c2 w).
Proof.
  intros [(Hr1 & Hg1 & Hb1) Ha1] [(Hr2 & Hg2 & Hb2) Ha2] Hw.
  assert (Hp : 0 <= w / 100 <= 1) by (constant_divisions; lra).
  pose proof (weight1_unit_interval (w / 100) (alpha c1 - alpha c2) Hp
                ltac:(lra)) as Hw1.
  unfold valid_color, in_gamut, mix. cbv zeta. cbn [red green blue alpha].
  split; [split; [| split] |]; apply average_within; assumption.
Qed.

Lemma white_valid : valid_color white.
Proof. unfold valid_color, in_gamut, white; simpl. lra. Qed.

Lemma black_valid : valid_color black.
Proof. unfold valid_color, in_gamut, black; simpl. lra. Qed.

Lemma palette_token_colors (c : color) (name : option string) :
  token_colors (tokens (include (generate_palette c name)))
  = [ mix white c 95; mix white c 85; mix white c 80; mix white c 70;
      mix white c 50; c; mix c (mix black c 30) 50; mix black c 30;
      mix black c 60 ].
Proof. reflexivity. Qed.

(** For a base colour of the data model (channels within 0..255, alpha
    within 0..1), all nine palette tokens are colours of the data model, and
    none is more transparent than the base. *)
Theorem palette_tokens_valid (c : color) (name : option string) :
  valid_color c ->
  let ts := token_colors (tokens (include (generate_palette c name))) in
  length ts = 9%nat /\
  Forall valid_color ts /\
  Forall (fun t => alpha c <= alpha t) ts.
Proof.
  intros Hc ts. subst ts. rewrite palette_token_colors.
  pose proof white_valid as Hwhite. pose proof black_valid as Hblack.
  assert (H8 : valid_color (mix black c 30)) by (apply mix_valid; auto; lra).
  split; [reflexivity | split].
  - repeat (apply Forall_cons; [first [exact Hc | apply mix_valid; auto; lra] |]).
    apply Forall_nil.
  - destruct Hc as [_ Ha].
    repeat (apply Forall_cons;
            [unfold mix, white, black; cbn [alpha]; constant_divisions; lra |]).
    apply Forall_nil.
Qed.

Lemma palette_tokens_valid_witness :
  valid_color (mkColor 0 123 255 (1 # 2)) /\
  Forall valid_color
    (token_colors
       (tokens (include (generate_palette (mkColor 0 123 255 (1 # 2)) None)))).
Proof.
  assert (H : valid_color (mkColor 0 123 255 (1 # 2))).
  { unfold valid_color, in_gamut, Qle. simpl. lia. }
  split; [exact H |].
  exact (proj1 (proj2 (palette_tokens_valid (mkColor 0 123 255 (1 # 2)) None H))).
Defined.

(** Mixing two opaque colours is plain linear interpolation of each
    channel, and the result is opaque. *)
Lemma mix_opaque (c1 c2 : color) (w : Q) :
  alpha c1 == 1 -> alpha c2 == 1 -> opaque_blend c1 c2 w (mix c1 c2 w).
Proof.
  intros H1 H2.
  assert (Hw : weight1 (w / 100) (alpha c1 - alpha c2) == w / 100)
    by (apply weight1_opaque; lra).
  unfold opaque_blend, blend, mix. cbn [red green blue alpha].
  rewrite Hw, H1, H2. repeat split; ring.
Qed.

(** For an opaque base colour every palette token is opaque and is a plain
    linear interpolation of the base: 95, 85, 80, 70 and 50 percent of white
    for tokens 1 to 5, the base for token 6, and 15, 30 and 60 percent of
    black for tokens 7, 8 and 9. *)
Theorem palette_opaque_blends (c : color) (name : option string) :
  alpha c == 1 ->
  Forall2 (fun t recipe => opaque_blend (fst recipe) c (snd recipe) t)
    (token_colors (tokens (include (generate_palette c name))))
    [ (white, 95); (white, 85); (white, 80); (white, 70); (white, 50);
      (black, 0); (black, 15); (black, 30); (black, 60) ].
Proof.
  intro Ha. rewrite palette_token_colors.
  assert (Hwhite : alpha white == 1) by reflexivity.
  assert (Hblack : alpha black == 1) by reflexivity.
  pose proof (mix_opaque black c 30 Hblack Ha) as (R8 & G8 & B8 & A8).
  pose proof (mix_opaque c (mix black c 30) 50 Ha A8) as (R7 & G7 & B7 & A7).
  repeat (apply Forall2_cons; [first [now apply mix_opaque | idtac] |]);
    [ | | apply Forall2_nil ]; cbn [fst snd].
  - unfold opaque_blend, blend, black; cbn [red green blue alpha].
    constant_divisions. repeat split; lra.
  - unfold opaque_blend. rewrite R7, G7, B7, A7. unfold blend in *.
    rewrite R8, G8, B8. unfold black; cbn [red green blue alpha].
    constant_divisions. repeat split; lra.
Qed.

Lemma palette_opaque_blends_witness :
  alpha (mkColor 0 123 255 1) == 1 /\
  Forall2 (fun t recipe =>
             opaque_blend (fst recipe) (mkColor 0 123 255 1) (snd recipe) t)
    (token_colors
       (tokens (include (generate_palette (mkColor 0 123 255 1) None))))
    [ (white, 95); (white, 85); (white, 80); (white, 70); (white, 50);
      (black, 0); (black, 15); (black, 30); (black, 60) ].
Proof.
  assert (H : alpha (mkColor 0 123 255 1) == 1) by reflexivity.
  split; [exact H |].
  exact (palette_opaque_blends (mkColor 0 123 255 1) None H).
Defined.

(** A weighted average lies between the two numbers it averages. *)
Lemma average_between (x y w : Q) :
  y <= x -> 0 <= w <= 1 -> y <= x * w + y * (1 - w) <= x.
Proof.
  intros Hxy Hw.
  assert (H1 : 0 <= (x - y) * w) by (apply Qmult_le_0_compat; lra).
  assert (H2 : 0 <= (x - y) * (1 - w)) by (apply Qmult_le_0_compat; lra).
  lra.
Qed.

Lemma palette_middle_lightness (c : color) (name : option string) :
  let p := or_default name "primary" in
  let t := token_lightness (include (generate_palette c name)) in
  t (p ++ "-6") = Some (lightness c) /\
  t (p ++ "-7") = Some (lightness (mix c (mix black c 30) 50)) /\
  t (p ++ "-8") = Some (lightness (mix black c 30)).
Proof.
  cbv zeta. unfold token_lightness, include, generate_palette, and_then, emit.
  cbn [app tokens token_of find fst String.append].
  rewrite !eqb_prefixed.
  repeat split; reflexivity.
Qed.

(** Token 7 lies between its neighbours: for a base colour of the data
    model the lightness of [p-7] is at most that of [p-6] (the base) and at
    least that of [p-8], so the whole palette from [p-1] to [p-9] runs from
    light to dark without a step back. *)
Theorem palette_token7_between (c : color) (name : option string) :
  valid_color c ->
  let p := or_default name "primary" in
  let t := token_lightness (include (generate_palette c name)) in
  exists l6 l7 l8 : Q,
    (t (p ++ "-6") = Some l6 /\ t (p ++ "-7") = Some l7 /\
     t (p ++ "-8") = Some l8) /\
    l6 >= l7 /\ l7 >= l8.
Proof.
  intros Hc p t.
  destruct (palette_middle_lightness c name) as (H6 & H7 & H8).
  exists (lightness c), (lightness (mix c (mix black c 30) 50)),
    (lightness (mix black c 30)).
  split; [repeat split; assumption |].
  destruct (mix_black_below c Hc 30 ltac:(lra)) as (Hr & Hg & Hb).
  pose proof Hc as [_ Ha].
  assert (Hw : 0 <= weight1 (50 / 100) (alpha c - alpha (mix black c 30)) <= 1).
  { apply weight1_unit_interval.
    - constant_divisions. lra.
    - unfold mix, black. cbn [alpha]. constant_divisions. lra. }
  split; apply lightness_channels_le; unfold channels_le;
    unfold mix at 1; cbv zeta; cbn [red green blue];
    repeat split; apply average_between; assumption.
Qed.

Lemma palette_token7_between_witness :
  valid_color (mkColor 0 123 255 (1 # 2)) /\
  exists l6 l7 l8 : Q,
    (let t := token_lightness
                (include (generate_palette (mkColor 0 123 255 (1 # 2))
                            (Some "blue"))) in
     t "blue-6" = Some l6 /\ t "blue-7" = Some l7 /\ t "blue-8" = Some l8) /\
    l6 >= l7 /\ l7 >= l8.
Proof.
  assert (H : valid_color (mkColor 0 123 255 (1 # 2))).
  { unfold valid_color, in_gamut, Qle. simpl. lia. }
  split; [exact H |].
  exact (palette_token7_between (mkColor 0 123 255 (1 # 2)) (Some "blue") H).
Defined.

(** The lightness of a colour lies between two bounds that hold for each of
    its channels, taken as fractions of 255. *)
Lemma lightness_bounds (c : color) (lo hi : Q) :
  lo <= red c <= hi -> lo <= green c <= hi -> lo <= blue c <= hi ->
  lo * (100 # 255) <= lightness c <= hi * (100 # 255).
Proof.
  intros Hr Hg Hb. unfold lightness. cbv zeta.
  assert (Hmax1 : Qmax (Qmax (red c) (green c)) (blue c) <= hi)
    by (repeat apply Q.max_lub; lra).
  assert (Hmax2 : lo <= Qmax (Qmax (red c) (green c)) (blue c)).
  { apply Qle_trans with (red c); [lra |].
    eapply Qle_trans; [apply Q.le_max_l |]. apply Q.le_max_l. }
  assert (Hmin1 : lo <= Qmin (Qmin (red c) (green c)) (blue c))
    by (repeat apply Q.min_glb; lra).
  assert (Hmin2 : Qmin (Qmin (red c) (green c)) (blue c) <= hi).
  { apply Qle_trans with (red c); [| lra].
    eapply Qle_trans; [apply Q.le_min_l |]. apply Q.le_min_l. }
  constant_divisions. lra.
Qed.

(** The ends of the palette: for every base colour of the data model the
    lightness of [p-1] is at least 95 percent and that of [p-9] at most 40
    percent, however dark or light the base is. *)
Theorem palette_ends_lightness (c : color) (name : option string) :
  valid_color c ->
  let p := or_default name "primary" in
  let t := token_lightness (include (generate_palette c name)) in
  exists l1 l9 : Q,
    t (p ++ "-1") = Some l1 /\ t (p ++ "-9") = Some l9 /\
    95 <= l1 <= 100 /\ 0 <= l9 <= 40.
Proof.
  intros Hc p t.
  destruct (palette_token_lightness c name)
    as (H1 & _ & _ & _ & _ & _ & _ & H9).
  exists (lightness (mix white c 95)), (lightness (mix black c 60)).
  split; [exact H1 | split; [exact H9 |]].
  pose proof Hc as [(Hr & Hg & Hb) Ha].
  pose proof (opaque_alpha_distance c Ha) as Hd.
  assert (Hp1 : 0 < 95 / 100 <= 1) by (constant_divisions; lra).
  assert (Hp9 : 0 < 60 / 100 <= 1) by (constant_divisions; lra).
  pose proof (weight1_at_least _ _ Hp1 Hd) as Hlo1.
  pose proof (weight1_bounds _ _ Hp1 Hd) as [_ Hhi1].
  pose proof (weight1_at_least _ _ Hp9 Hd) as Hlo9.
  pose proof (weight1_bounds _ _ Hp9 Hd) as [_ Hhi9].
  revert Hlo1 Hhi1 Hlo9 Hhi9. constant_divisions. intros Hlo1 Hhi1 Hlo9 Hhi9.
  split.
  - assert (H : (969 # 4) * (100 # 255) <= lightness (mix white c 95)
                <= 255 * (100 # 255)).
    { apply lightness_bounds; unfold mix, white; cbv zeta;
        cbn [red green blue alpha]; constant_divisions;
        match goal with
        | |- _ <= 255 * ?w + ?x * (1 - ?w) <= _ =>
            assert (0 <= x * (1 - w)) by (apply Qmult_le_0_compat; lra);
            assert (0 <= (255 - x) * (1 - w))
              by (apply Qmult_le_0_compat; lra)
        end; lra. }
    lra.
  - assert (H : 0 * (100 # 255) <= lightness (mix black c 60)
                <= 102 * (100 # 255)).
    { apply lightness_bounds; unfold mix, black; cbv zeta;
        cbn [red green blue alpha]; constant_divisions;
        match goal with
        | |- _ <= 0 * ?w + ?x * (1 - ?w) <= _ =>
            assert (0 <= x * (1 - w)) by (apply Qmult_le_0_compat; lra);
            assert (0 <= (255 - x) * (1 - w))
              by (apply Qmult_le_0_compat; lra)
        end; lra. }
    lra.
Qed.

Lemma palette_ends_lightness_witness :
  valid_color black /\
  exists l1 l9 : Q,
    token_lightness (include (generate_palette black None)) "primary-1"
      = Some l1 /\
    token_lightness (include (generate_palette black None)) "primary-9"
      = Some l9 /\
    95 <= l1 <= 100 /\ 0 <= l9 <= 40.
Proof.
  assert (H : valid_color black).
  { unfold valid_color, in_gamut, Qle. simpl. lia. }
  split; [exact H |].
  exact (palette_ends_lightness black None H).
Defined.

(** ** Overlays of any colour *)

Lemma clamp_bounds (lo hi x : Q) : lo <= hi -> lo <= clamp lo hi x <= hi.
Proof.
  intro H. unfold clamp.
  destruct (x ?= lo) eqn:E1; [apply Qeq_alt in E1 | lra
                              | rewrite <- Qgt_alt in E1];
    (destruct (x ?= hi) eqn:E2;
     [apply Qeq_alt in E2 | rewrite <- Qlt_alt in E2 | ]; lra).
Qed.

Lemma rgba_valid (r g b a : Q) : valid_color (rgba r g b a).
Proof.
  unfold valid_color, in_gamut, rgba. cbn [red green blue alpha].
  repeat split; apply clamp_bounds; lra.
Qed.

(** For every base colour, also one outside 0..255 or a translucent one, the
    four overlays are colours of the data model with the alphas 0.1, 0.2,
    0.4 and 0.7; the alpha of the base plays no part: a base that differs in
    its alpha only gives the same overlays. *)
Theorem overlay_of_any_color (c : color) (n : string) :
  let ts := token_colors (tokens (include (generate_layouts_overlay c n))) in
  Forall valid_color ts /\
  map alpha ts = [1 # 10; 2 # 10; 4 # 10; 7 # 10] /\
  forall a : Q,
    include (generate_layouts_overlay
               (mkColor (red c) (green c) (blue c) a) n)
    = include (generate_layouts_overlay c n).
Proof.
  cbv zeta. split; [| split].
  - unfold include, generate_layouts_overlay, and_then, emit.
    cbn [app tokens token_of token_colors].
    repeat (apply Forall_cons; [apply rgba_valid |]). apply Forall_nil.
  - reflexivity.
  - intro a. reflexivity.
Qed.
